(** * AtomicResizable<T> (src/utils.h) as a shallow embedding

    The class keeps two objects of a resizeable type [T], an atomic flag and
    a mutex.  The audio thread calls [get], the control thread calls
    [resize_and_clear].  The first part of this file models one call at a
    time (calls run to completion, one after the other); the module
    [Interleaving] further down runs the statements of the two member
    functions one by one under an explicit schedule. *)

From Stdlib Require Import List NArith ZArith Bool Lia.
Import ListNotations.

Set Implicit Arguments.

(** [size_t].  The class never computes with it: the value is handed to the
    stored function unchanged, so the 64-bit bound plays no role here. *)
Definition size_t := N.

(** How a call of the stored [fu2::unique_function<void(T&, size_t)>] ends:
    it returns, or it throws some [e]. *)
Inductive completion (E : Type) : Type :=
| Normal
| Throws (e : E).
Arguments Normal {E}.
Arguments Throws {E} e.

(** The data members of the class.  [resize_and_clear_fn] takes its first
    argument by reference: the model gives it the object and gets back the
    object as the call left it, together with the way the call ended.
    [resize_mutex] is [true] while the mutex is held. *)
Record AtomicResizable (T E : Type) : Type := {
  resize_and_clear_fn : T -> size_t -> T * completion E;
  needs_swap : bool;
  resize_mutex : bool;
  active : T;
  inactive : T
}.

(** What a member function call does to the object: it returns a value, it
    leaves by an exception, or it never gets past [std::lock_guard]. *)
Inductive outcome (S E A : Type) : Type :=
| Returned (a : A) (s : S)
| Raised (e : E) (s : S)
| Blocked.
Arguments Returned {S E A} a s.
Arguments Raised {S E A} e s.
Arguments Blocked {S E A}.

Section Members.
Context {T E : Type}.

Definition M (A : Type) : Type :=
  AtomicResizable T E -> outcome (AtomicResizable T E) E A.

Definition ret {A} (a : A) : M A := fun s => Returned a s.

Definition bind {A B} (m : M A) (k : A -> M B) : M B :=
  fun s =>
    match m s with
    | Returned a s' => k a s'
    | Raised e s' => Raised e s'
    | Blocked => Blocked
    end.

Local Notation "x <- m ;; k" := (bind m (fun x => k))
  (at level 61, m at next level, right associativity).
Local Notation "m ;;; k" := (bind m (fun _ => k))
  (at level 61, right associativity).

(** Field updates. *)
Definition set_needs_swap (b : bool) (s : AtomicResizable T E)
  : AtomicResizable T E :=
  {| resize_and_clear_fn := resize_and_clear_fn s;
     needs_swap := b;
     resize_mutex := resize_mutex s;
     active := active s;
     inactive := inactive s |}.

Definition set_resize_mutex (b : bool) (s : AtomicResizable T E)
  : AtomicResizable T E :=
  {| resize_and_clear_fn := resize_and_clear_fn s;
     needs_swap := needs_swap s;
     resize_mutex := b;
     active := active s;
     inactive := inactive s |}.

Definition set_inactive (t : T) (s : AtomicResizable T E)
  : AtomicResizable T E :=
  {| resize_and_clear_fn := resize_and_clear_fn s;
     needs_swap := needs_swap s;
     resize_mutex := resize_mutex s;
     active := active s;
     inactive := t |}.

(** The constructor: [active(initial), inactive(initial)], the flag and
    the mutex in their default state. *)
Definition new_AtomicResizable (initial : T)
           (fn : T -> size_t -> T * completion E) : AtomicResizable T E :=
  {| resize_and_clear_fn := fn;
     needs_swap := false;
     resize_mutex := false;
     active := initial;
     inactive := initial |}.

(** [needs_swap = b]. *)
Definition needs_swap_store (b : bool) : M unit :=
  fun s => Returned tt (set_needs_swap b s).

(** [needs_swap.compare_exchange_strong(expected, desired)]: the result is
    the returned boolean and the value left in [expected].  On failure
    nothing is written to the flag. *)
Definition needs_swap_compare_exchange_strong (expected desired : bool)
  : M (bool * bool) :=
  fun s =>
    if Bool.eqb (needs_swap s) expected
    then Returned (true, expected) (set_needs_swap desired s)
    else Returned (false, needs_swap s) s.

(** [std::swap(active, inactive)]. *)
Definition swap_active_inactive : M unit :=
  fun s =>
    Returned tt
      {| resize_and_clear_fn := resize_and_clear_fn s;
         needs_swap := needs_swap s;
         resize_mutex := resize_mutex s;
         active := inactive s;
         inactive := active s |}.

(** [resize_and_clear_fn(inactive, new_size)]: whatever the function did
    to [inactive] stays there, also when it throws. *)
Definition call_resize_and_clear_fn (new_size : size_t) : M unit :=
  fun s =>
    let (t', c) := resize_and_clear_fn s (inactive s) new_size in
    match c with
    | Normal => Returned tt (set_inactive t' s)
    | Throws e => Raised e (set_inactive t' s)
    end.

(** [std::lock_guard lock(resize_mutex)] around [body]: the constructor
    waits for the mutex, the destructor releases it on return and on
    unwinding. *)
Definition lock_guard {A} (body : M A) : M A :=
  fun s =>
    if resize_mutex s then Blocked
    else
      match body (set_resize_mutex true s) with
      | Returned a s' => Returned a (set_resize_mutex false s')
      | Raised e s' => Raised e (set_resize_mutex false s')
      | Blocked => Blocked
      end.

(** [return active;] *)
Definition return_active : M T := fun s => Returned (active s) s.

(** [T& get()] *)
Definition get : M T :=
  let expected := true in
  r <- needs_swap_compare_exchange_strong expected false ;;
  (if fst r then swap_active_inactive else ret tt) ;;;
  return_active.

(** [void resize_and_clear(size_t new_size)] *)
Definition resize_and_clear (new_size : size_t) : M unit :=
  lock_guard
    (needs_swap_store false ;;;
     call_resize_and_clear_fn new_size ;;;
     needs_swap_store true).

(** [k] calls of [get] in a row, collecting what they return. *)
Fixpoint get_times (k : nat) : M (list T) :=
  match k with
  | O => ret []
  | S k' => a <- get ;; l <- get_times k' ;; ret (a :: l)
  end.

(** The object after [get] consumed a pending swap. *)
Definition swapped (s : AtomicResizable T E) : AtomicResizable T E :=
  {| resize_and_clear_fn := resize_and_clear_fn s;
     needs_swap := false;
     resize_mutex := resize_mutex s;
     active := inactive s;
     inactive := active s |}.

(** The object a [resize_and_clear] leaves behind when the stored
    function left [t] in the inactive slot and the flag ends as [b]. *)
Definition resized (b : bool) (t : T) (s : AtomicResizable T E)
  : AtomicResizable T E :=
  {| resize_and_clear_fn := resize_and_clear_fn s;
     needs_swap := b;
     resize_mutex := false;
     active := active s;
     inactive := t |}.

(** The given calls of [resize_and_clear], one after the other. *)
Fixpoint resize_and_clear_all (calls : list size_t) : M unit :=
  match calls with
  | [] => ret tt
  | n :: calls' => resize_and_clear n ;;; resize_and_clear_all calls'
  end.

(** What [get] returns right after those calls, if they all return. *)
Definition get_after (calls : list size_t) (s : AtomicResizable T E)
  : option T :=
  match (resize_and_clear_all calls ;;; get) s with
  | Returned a _ => Some a
  | _ => None
  end.

(** The reader cannot tell whether [resize_and_clear(n1)] was called
    before [resize_and_clear(n2)] or not. *)
Definition first_resize_discarded (s : AtomicResizable T E)
           (n1 n2 : size_t) : Prop :=
  get_after [n1; n2] s = get_after [n2] s.

End Members.

Notation "x <- m ;; k" := (bind m (fun x => k))
  (at level 61, m at next level, right associativity).
Notation "m ;;; k" := (bind m (fun _ => k))
  (at level 61, right associativity).

(** ** Objects to run the class on

    [T] is instantiated with a vector of samples, and the stored function
    with three ways of resizing one. *)

Inductive cpp_exception : Type :=
| bad_alloc.

Definition samples := list Z.

(** [v.resize(n)]: cut to [n] elements or pad with zeros; the elements that
    stay keep their values. *)
Definition vector_resize (v : samples) (n : size_t) : samples :=
  firstn (N.to_nat n) v ++ repeat 0%Z (N.to_nat n - length v).

(** [[](auto& v, size_t n) { v.resize(n); }] *)
Definition resize_only (v : samples) (n : size_t)
  : samples * completion cpp_exception :=
  (vector_resize v n, Normal).

(** [[](auto& v, size_t n) { v.clear(); v.resize(n); }] *)
Definition clear_then_resize (v : samples) (n : size_t)
  : samples * completion cpp_exception :=
  (vector_resize [] n, Normal).

(** The same on a machine that has room for [limit] samples only: the
    vector is already cleared when the allocation fails. *)
Definition clear_then_resize_limited (limit : N) (v : samples) (n : size_t)
  : samples * completion cpp_exception :=
  if (limit <? n)%N then ([], Throws bad_alloc)
  else (vector_resize [] n, Normal).

Definition size_of (v : samples) : size_t := N.of_nat (length v).

(** A freshly constructed object of four samples, for each of the three
    functions. *)
Definition clearing_slot : AtomicResizable samples cpp_exception :=
  new_AtomicResizable [7; 7; 7; 7]%Z clear_then_resize.

Definition keeping_slot : AtomicResizable samples cpp_exception :=
  new_AtomicResizable [7; 7; 7; 7]%Z resize_only.

Definition limited_slot : AtomicResizable samples cpp_exception :=
  new_AtomicResizable [7; 7; 7; 7]%Z (clear_then_resize_limited 8%N).

(** [limited_slot] after [resize_and_clear(8)] returned and before the next
    [get]. *)
Definition limited_slot_pending : AtomicResizable samples cpp_exception :=
  resized true (vector_resize [] 8%N) limited_slot.

(** ** The two threads, statement by statement

    The audio thread runs [get] over and over; the control thread runs the
    [resize_and_clear] calls it was given.  [needs_swap] is a
    [std::atomic_bool] accessed with the default memory order, so every
    access to it is one step; [std::swap(active, inactive)] is a statement
    of its own after the exchange; the stored function is a call that takes
    time, given here as the list of writes it makes to its argument, in
    order.  A schedule says which thread makes the next step. *)

Module Interleaving.

Section Machine.
Context {T E : Type}.

(** The writes [resize_and_clear_fn(inactive, n)] makes through its
    reference argument. *)
Variable fn_writes : size_t -> list (T -> T).

(** The call as a whole, for the stored function of the class. *)
Definition fn_of_writes (t : T) (n : size_t) : T * completion E :=
  (fold_left (fun x w => w x) (fn_writes n) t, Normal).

(** Where the audio thread is inside [get]. *)
Inductive reader_pc : Type :=
| R_exchange   (* at [needs_swap.compare_exchange_strong(expected, false)] *)
| R_swap       (* the exchange succeeded; at [std::swap(active, inactive)] *)
| R_return.    (* at [return active] *)

(** Where the control thread is inside [resize_and_clear]. *)
Inductive writer_pc : Type :=
| W_lock                        (* not in a call, or waiting at [lock_guard] *)
| W_clear (n : size_t)          (* at [needs_swap = false] *)
| W_call (rest : list (T -> T)) (* inside the stored function *)
| W_publish                     (* at [needs_swap = true] *)
| W_unlock.                     (* at the end of the scope of [lock] *)

Record config : Type := {
  obj : AtomicResizable T E;
  reader : reader_pc;
  returned : list T;        (* what the calls of [get] returned, in order *)
  writer : writer_pc;
  pending : list size_t     (* the calls the control thread has yet to make *)
}.

Definition reader_step (c : config) : config :=
  match reader c with
  | R_exchange =>
      if needs_swap (obj c)
      then {| obj := set_needs_swap false (obj c); reader := R_swap;
              returned := returned c;
              writer := writer c; pending := pending c |}
      else {| obj := obj c; reader := R_return;
              returned := returned c;
              writer := writer c; pending := pending c |}
  | R_swap =>
      {| obj := {| resize_and_clear_fn := resize_and_clear_fn (obj c);
                   needs_swap := needs_swap (obj c);
                   resize_mutex := resize_mutex (obj c);
                   active := inactive (obj c);
                   inactive := active (obj c) |};
         reader := R_return;
         returned := returned c;
         writer := writer c; pending := pending c |}
  | R_return =>
      {| obj := obj c; reader := R_exchange;
         returned := returned c ++ [active (obj c)];
         writer := writer c; pending := pending c |}
  end.

Definition writer_step (c : config) : config :=
  match writer c with
  | W_lock =>
      match pending c with
      | [] => c
      | n :: calls =>
          if resize_mutex (obj c) then c
          else {| obj := set_resize_mutex true (obj c); reader := reader c;
                  returned := returned c;
                  writer := W_clear n; pending := calls |}
      end
  | W_clear n =>
      {| obj := set_needs_swap false (obj c); reader := reader c;
         returned := returned c;
         writer := W_call (fn_writes n); pending := pending c |}
  | W_call [] =>
      {| obj := obj c; reader := reader c; returned := returned c;
         writer := W_publish; pending := pending c |}
  | W_call (w :: rest) =>
      {| obj := set_inactive (w (inactive (obj c))) (obj c);
         reader := reader c; returned := returned c;
         writer := W_call rest; pending := pending c |}
  | W_publish =>
      {| obj := set_needs_swap true (obj c); reader := reader c;
         returned := returned c;
         writer := W_unlock; pending := pending c |}
  | W_unlock =>
      {| obj := set_resize_mutex false (obj c); reader := reader c;
         returned := returned c;
         writer := W_lock; pending := pending c |}
  end.

Inductive thread : Type :=
| Audio
| Control.

Definition step (t : thread) (c : config) : config :=
  match t with
  | Audio => reader_step c
  | Control => writer_step c
  end.

Definition run (schedule : list thread) (c : config) : config :=
  fold_left (fun c t => step t c) schedule c.

(** Both threads at the start of their code, on a freshly constructed
    object. *)
Definition start (initial : T) (calls : list size_t) : config :=
  {| obj := new_AtomicResizable initial fn_of_writes;
     reader := R_exchange;
     returned := [];
     writer := W_lock;
     pending := calls |}.

(** An object of the size the slot started with or of a size some call
    asked for. *)
Definition requested_size (size : T -> size_t) (initial : T)
           (calls : list size_t) (t : T) : Prop :=
  size t = size initial \/ In (size t) calls.

(** The audio thread only ever gets such objects. *)
Definition only_requested_sizes (size : T -> size_t) (initial : T)
           (calls : list size_t) : Prop :=
  forall schedule,
    Forall (requested_size size initial calls)
           (returned (run schedule (start initial calls))).

(** Schedules that never leave [get] halfway: the audio thread makes a
    whole call (two steps, three when it swaps) or the control thread makes
    one step. *)
Inductive turn : Type :=
| Whole_get
| Control_step.

Definition turn_schedule (c : config) (t : turn) : list thread :=
  match t with
  | Whole_get => repeat Audio (if needs_swap (obj c) then 3 else 2)
  | Control_step => [Control]
  end.

Definition run_turns (turns : list turn) (c : config) : config :=
  fold_left (fun c t => run (turn_schedule c t) c) turns c.

(** What holds of the machine whenever the audio thread is between two
    calls of [get]: [active] is presentable, [inactive] is presentable as
    soon as the flag says so, and while the control thread is inside the
    stored function the flag is down. *)
Definition between_gets (size : T -> size_t) (initial : T)
           (calls : list size_t) (c : config) : Prop :=
  reader c = R_exchange /\
  requested_size size initial calls (active (obj c)) /\
  (needs_swap (obj c) = true ->
   requested_size size initial calls (inactive (obj c))) /\
  Forall (requested_size size initial calls) (returned c) /\
  incl (pending c) calls /\
  match writer c with
  | W_lock | W_unlock => True
  | W_clear n => In n calls
  | W_call rest =>
      needs_swap (obj c) = false /\
      In (size (fold_left (fun x w => w x) rest (inactive (obj c)))) calls
  | W_publish =>
      needs_swap (obj c) = false /\ In (size (inactive (obj c))) calls
  end.

End Machine.

(** [v.clear(); v.resize(n);] as its two writes. *)
Definition clear_then_resize_writes (n : size_t) : list (samples -> samples) :=
  [fun _ => []; fun v => vector_resize v n].

(** The control thread finishes [resize_and_clear(8)]; the audio thread
    enters [get] and wins the exchange; the control thread enters
    [resize_and_clear(2)] and gets as far as [v.clear()]; the audio thread
    goes on with its swap and returns. *)
Definition racy_schedule : list thread :=
  repeat Control 7 ++ [Audio] ++ repeat Control 3 ++ [Audio; Audio].

(** Four samples to start with, then [resize_and_clear(8)] and
    [resize_and_clear(2)]. *)
Definition racy_start : config :=
  start (E := cpp_exception) clear_then_resize_writes
        [7; 7; 7; 7]%Z [8; 2]%N.

End Interleaving.

(** ** Callers

    A thread that makes calls one after the other and goes on after a
    [resize_and_clear] that threw.  [None] when a call never returns. *)

Inductive call : Type :=
| Call_get
| Call_resize_and_clear (n : size_t).

Section Callers.
Context {T E : Type}.

Definition after_call (c : call) (s : AtomicResizable T E)
  : option (AtomicResizable T E) :=
  match c with
  | Call_get =>
      match get s with
      | Returned _ s' | Raised _ s' => Some s'
      | Blocked => None
      end
  | Call_resize_and_clear n =>
      match resize_and_clear n s with
      | Returned _ s' | Raised _ s' => Some s'
      | Blocked => None
      end
  end.

Fixpoint after_calls (cs : list call) (s : AtomicResizable T E)
  : option (AtomicResizable T E) :=
  match cs with
  | [] => Some s
  | c :: cs' =>
      match after_call c s with
      | Some s' => after_calls cs' s'
      | None => None
      end
  end.

End Callers.

(** ** Counting steps of the two threads *)

Section Counting.
Context {T E : Type}.
Variable fn_writes : size_t -> list (T -> T).

Definition is_audio (t : Interleaving.thread) : bool :=
  match t with
  | Interleaving.Audio => true
  | Interleaving.Control => false
  end.

Definition audio_steps (schedule : list Interleaving.thread) : nat :=
  length (filter is_audio schedule).

Definition control_steps (schedule : list Interleaving.thread) : nat :=
  length (filter (fun t => negb (is_audio t)) schedule).

(** How far the audio thread has come: three for every [get] that returned,
    and its place in the one it is in. *)
Definition reader_progress (c : Interleaving.config (T := T) (E := E))
  : nat :=
  3 * length (Interleaving.returned c)
  + match Interleaving.reader c with
    | Interleaving.R_exchange => 0
    | Interleaving.R_swap => 1
    | Interleaving.R_return => 2
    end.

(** The steps one [resize_and_clear(n)] takes: lock, store, the writes of
    the stored function, its return, store, unlock. *)
Definition call_steps (n : size_t) : nat := length (fn_writes n) + 5.

(** The steps the control thread still has to make. *)
Definition writer_remaining (c : Interleaving.config (T := T) (E := E))
  : nat :=
  match Interleaving.writer c with
  | Interleaving.W_lock => 0
  | Interleaving.W_clear n => length (fn_writes n) + 4
  | Interleaving.W_call rest => length rest + 3
  | Interleaving.W_publish => 2
  | Interleaving.W_unlock => 1
  end
  + list_sum (map call_steps (Interleaving.pending c)).

(** The control thread holds the mutex from its first step inside
    [resize_and_clear] to its last. *)
Definition writer_holds_mutex (w : Interleaving.writer_pc (T := T)) : bool :=
  match w with
  | Interleaving.W_lock => false
  | _ => true
  end.

(** What the stored function makes of [t] when asked for [n]. *)
Definition fn_result (n : size_t) (t : T) : T :=
  fold_left (fun x w => w x) (fn_writes n) t.

(** A [get] that wins its exchange after [resize_and_clear(n1)], a whole
    [resize_and_clear(n2)] before it swaps, and one more [get]. *)
Definition overtaken_schedule (n1 n2 : size_t) : list Interleaving.thread :=
  repeat Interleaving.Control (call_steps n1)
  ++ [Interleaving.Audio]
  ++ repeat Interleaving.Control (call_steps n2)
  ++ repeat Interleaving.Audio 5.

End Counting.

(** * Properties of one call at a time *)

Section MemberFacts.
Context {T E : Type}.
Implicit Types (s : AtomicResizable T E) (n : size_t).

Lemma get_pending s :
  needs_swap s = true -> get s = Returned (inactive s) (swapped s).
Proof.
  destruct s as [fn ns mu a i]; simpl; intros ->. reflexivity.
Qed.

Lemma get_stable s :
  needs_swap s = false -> get s = Returned (active s) s.
Proof.
  destruct s as [fn ns mu a i]; simpl; intros ->. reflexivity.
Qed.

Lemma get_times_stable s k :
  needs_swap s = false ->
  get_times k s = Returned (repeat (active s) k) s.
Proof.
  intros Hns. induction k as [|k IH]; simpl.
  - reflexivity.
  - unfold bind at 1. rewrite (get_stable s Hns).
    unfold bind at 1. rewrite IH. reflexivity.
Qed.

Lemma resize_and_clear_returns s n t :
  resize_mutex s = false ->
  resize_and_clear_fn s (inactive s) n = (t, Normal) ->
  resize_and_clear n s = Returned tt (resized true t s).
Proof.
  destruct s as [fn ns mu a i]; simpl; intros -> Hfn.
  unfold resize_and_clear, lock_guard, bind, needs_swap_store,
    call_resize_and_clear_fn; simpl.
  rewrite Hfn. reflexivity.
Qed.

Lemma resize_and_clear_throws s n t e :
  resize_mutex s = false ->
  resize_and_clear_fn s (inactive s) n = (t, Throws e) ->
  resize_and_clear n s = Raised e (resized false t s).
Proof.
  destruct s as [fn ns mu a i]; simpl; intros -> Hfn.
  unfold resize_and_clear, lock_guard, bind, needs_swap_store,
    call_resize_and_clear_fn; simpl.
  rewrite Hfn. reflexivity.
Qed.

Lemma resize_and_clear_waits s n :
  resize_mutex s = true -> resize_and_clear n s = Blocked.
Proof.
  intros Hmu. unfold resize_and_clear, lock_guard. rewrite Hmu. reflexivity.
Qed.

Lemma resize_and_clear_twice s n1 n2 t1 t2 :
  resize_mutex s = false ->
  resize_and_clear_fn s (inactive s) n1 = (t1, Normal) ->
  resize_and_clear_fn s t1 n2 = (t2, Normal) ->
  (resize_and_clear n1 ;;; resize_and_clear n2) s
  = Returned tt (resized true t2 s).
Proof.
  intros Hmu H1 H2. unfold bind.
  rewrite (resize_and_clear_returns s n1 Hmu H1).
  rewrite (@resize_and_clear_returns (resized true t1 s) n2 t2);
    [reflexivity | reflexivity | exact H2].
Qed.

End MemberFacts.

Section MemberClaims.
Context {T E : Type}.
Implicit Types (s : AtomicResizable T E) (n : size_t).

(** C2: [get] makes one compare-and-exchange of [needs_swap] from [true] to
    [false].  When the flag was [true] the exchange succeeds, [active] and
    [inactive] change places and the call returns the new [active]; when it
    was [false] the exchange fails, the object is left as it was and the
    call returns its [active]. *)
Theorem get_exchanges_then_swaps s :
  exists s',
    get s = Returned (active s') s' /\
    needs_swap s' = false /\
    if needs_swap s
    then needs_swap_compare_exchange_strong true false s
         = Returned (true, true) (set_needs_swap false s)
         /\ s' = swapped s
         /\ active s' = inactive s /\ inactive s' = active s
    else needs_swap_compare_exchange_strong true false s
         = Returned (false, false) s
         /\ s' = s.
Proof.
  destruct (needs_swap s) eqn:Hns.
  - exists (swapped s). rewrite (get_pending s Hns).
    unfold needs_swap_compare_exchange_strong. rewrite Hns. simpl.
    repeat split.
  - exists s. rewrite (get_stable s Hns).
    unfold needs_swap_compare_exchange_strong. rewrite Hns. simpl.
    repeat split.
Qed.

(** C6: [get] returns on every object, whatever the flag, the mutex and the
    two stored values are: it never leaves by an exception and never waits,
    and what it returns is the [active] member. *)
Theorem get_is_total s :
  exists a s', get s = Returned a s' /\ a = active s'.
Proof.
  destruct (needs_swap s) eqn:Hns.
  - exists (inactive s), (swapped s). rewrite (get_pending s Hns).
    split; reflexivity.
  - exists (active s), s. rewrite (get_stable s Hns). split; reflexivity.
Qed.

(** C8: [get] leaves the two stored values as they are or makes them change
    places, and nothing else; on an object whose flag is [false] any number
    of calls in a row leave the object unchanged and all return the same
    [active]. *)
Theorem get_keeps_contents s :
  (exists a s',
      get s = Returned a s' /\
      resize_and_clear_fn s' = resize_and_clear_fn s /\
      resize_mutex s' = resize_mutex s /\
      ((active s' = active s /\ inactive s' = inactive s) \/
       (active s' = inactive s /\ inactive s' = active s))) /\
  (needs_swap s = false ->
   forall k, get_times k s = Returned (repeat (active s) k) s).
Proof.
  split.
  - destruct (needs_swap s) eqn:Hns.
    + exists (inactive s), (swapped s). rewrite (get_pending s Hns).
      repeat split. right. split; reflexivity.
    + exists (active s), s. rewrite (get_stable s Hns).
      repeat split. left. split; reflexivity.
  - intros Hns k. apply get_times_stable. exact Hns.
Qed.

(** C7: whichever way a call of [resize_and_clear] ends, [active] is what
    it was before the call, and so are the stored function and the mutex;
    only [inactive] and [needs_swap] may differ.  A call that waits forever
    for the mutex changes nothing at all.  Taken statement by statement, no
    step of the control thread writes to [active] either. *)
Theorem resize_and_clear_keeps_active s n :
  match resize_and_clear n s with
  | Returned _ s' | Raised _ s' =>
      exists b t,
        s' = {| resize_and_clear_fn := resize_and_clear_fn s;
                needs_swap := b;
                resize_mutex := resize_mutex s;
                active := active s;
                inactive := t |}
  | Blocked => resize_mutex s = true
  end /\
  forall (fn_writes : size_t -> list (T -> T))
         (c : Interleaving.config (T := T) (E := E)),
    active (Interleaving.obj (Interleaving.writer_step fn_writes c))
    = active (Interleaving.obj c).
Proof.
  split.
  - destruct (resize_mutex s) eqn:Hmu.
    + rewrite (resize_and_clear_waits s n Hmu). reflexivity.
    + destruct (resize_and_clear_fn s (inactive s) n) as [t [|e]] eqn:Hfn.
      * rewrite (resize_and_clear_returns s n Hmu Hfn).
        exists true, t. unfold resized. reflexivity.
      * rewrite (resize_and_clear_throws s n Hmu Hfn).
        exists false, t. unfold resized. reflexivity.
  - intros fn_writes c. unfold Interleaving.writer_step.
    destruct (Interleaving.writer c) as [|m|[|w rest]| |];
      try reflexivity.
    destruct (Interleaving.pending c) as [|m calls]; [reflexivity|].
    destruct (resize_mutex (Interleaving.obj c)); reflexivity.
Qed.

(** C5: when the stored function returns, [resize_and_clear(n)] returns
    with [needs_swap] set, and the next [get] returns the object the
    function was applied to, as the function left it. *)
Theorem resize_then_get s n t :
  resize_mutex s = false ->
  resize_and_clear_fn s (inactive s) n = (t, Normal) ->
  exists s',
    resize_and_clear n s = Returned tt s' /\
    needs_swap s' = true /\
    inactive s' = t /\
    get s' = Returned t (swapped s') /\
    active (swapped s') = t.
Proof.
  intros Hmu Hfn. exists (resized true t s).
  rewrite (resize_and_clear_returns s n Hmu Hfn).
  rewrite get_pending by reflexivity.
  repeat split.
Qed.

(** C3: when the stored function throws, [resize_and_clear(n)] leaves by
    that same exception with the mutex released, [active] untouched and
    [needs_swap] false, so the next [get] returns the [active] from before
    the call. *)
Theorem resize_failure_keeps_reader_state s n t e :
  resize_mutex s = false ->
  resize_and_clear_fn s (inactive s) n = (t, Throws e) ->
  exists s',
    resize_and_clear n s = Raised e s' /\
    resize_mutex s' = false /\
    active s' = active s /\
    needs_swap s' = false /\
    get s' = Returned (active s) s'.
Proof.
  intros Hmu Hfn. exists (resized false t s).
  rewrite (resize_and_clear_throws s n Hmu Hfn).
  rewrite get_stable by reflexivity.
  repeat split.
Qed.

(** C10: on an object with a swap pending (a [get] now would hand out
    [inactive]), a [resize_and_clear] whose stored function throws leaves
    [needs_swap] false; from then on every [get] returns the old [active],
    however many are made. *)
Theorem failed_resize_cancels_pending_swap s n t e :
  resize_mutex s = false ->
  needs_swap s = true ->
  resize_and_clear_fn s (inactive s) n = (t, Throws e) ->
  get s = Returned (inactive s) (swapped s) /\
  exists s',
    resize_and_clear n s = Raised e s' /\
    needs_swap s' = false /\
    active s' = active s /\
    forall k, get_times k s' = Returned (repeat (active s) k) s'.
Proof.
  intros Hmu Hns Hfn. split.
  - apply get_pending. exact Hns.
  - exists (resized false t s).
    rewrite (resize_and_clear_throws s n Hmu Hfn).
    repeat split.
    intros k. apply (get_times_stable (resized false t s)). reflexivity.
Qed.

End MemberClaims.

Section BackToBack.
Context {T E : Type}.
Implicit Types (s : AtomicResizable T E) (n : size_t).

Lemma get_after_one s n t :
  resize_mutex s = false ->
  resize_and_clear_fn s (inactive s) n = (t, Normal) ->
  get_after [n] s = Some t.
Proof.
  intros Hmu Hfn. unfold get_after. cbn [resize_and_clear_all]. unfold bind.
  rewrite (resize_and_clear_returns s n Hmu Hfn). unfold ret.
  rewrite get_pending by reflexivity. reflexivity.
Qed.

Lemma get_after_two s n1 n2 t1 t2 :
  resize_mutex s = false ->
  resize_and_clear_fn s (inactive s) n1 = (t1, Normal) ->
  resize_and_clear_fn s t1 n2 = (t2, Normal) ->
  get_after [n1; n2] s = Some t2.
Proof.
  intros Hmu H1 H2. unfold get_after. cbn [resize_and_clear_all]. unfold bind.
  rewrite (resize_and_clear_returns s n1 Hmu H1).
  rewrite (resize_and_clear_returns (resized true t1 s) n2 (t:=t2))
    by (reflexivity || exact H2).
  unfold ret. rewrite get_pending by reflexivity. reflexivity.
Qed.

End BackToBack.

(** C1, as the specification words it, fails.  With [v.resize(n)] as the
    stored function, [resize_and_clear(2)] followed by [resize_and_clear(4)]
    hands the reader an object of size 4 whose two zeros were made by the
    resize to 2; a lone [resize_and_clear(4)] would have handed out the
    four samples untouched. *)
Lemma first_resize_still_visible :
  get_after [2; 4]%N keeping_slot = Some [7; 7; 0; 0]%Z /\
  get_after [4]%N keeping_slot = Some [7; 7; 7; 7]%Z /\
  ~ first_resize_discarded keeping_slot 2%N 4%N.
Proof.
  split; [reflexivity|]. split; [reflexivity|].
  unfold first_resize_discarded. vm_compute. intros H. discriminate H.
Qed.

(** C1 (amended): after [resize_and_clear(n1)] and [resize_and_clear(n2)]
    in a row, both returning, the next [get] returns what the stored
    function made with [n2] of the object the first call left in the
    inactive slot.  It has size [n2] whenever the function sizes its
    argument as asked, and it is what a lone [resize_and_clear(n2)] would
    have given whenever the function's result for [n2] does not depend on
    the object it is given. *)
Theorem two_resizes_then_get
        {T E : Type} (s : AtomicResizable T E) (n1 n2 : size_t) (t1 t2 : T) :
  resize_mutex s = false ->
  resize_and_clear_fn s (inactive s) n1 = (t1, Normal) ->
  resize_and_clear_fn s t1 n2 = (t2, Normal) ->
  get_after [n1; n2] s = Some t2 /\
  (forall size : T -> size_t,
      (forall t, size (fst (resize_and_clear_fn s t n2)) = n2) ->
      size t2 = n2) /\
  ((forall t t', resize_and_clear_fn s t n2 = resize_and_clear_fn s t' n2) ->
   first_resize_discarded s n1 n2).
Proof.
  intros Hmu H1 H2. split; [|split].
  - exact (get_after_two s n1 n2 Hmu H1 H2).
  - intros size Hsize. specialize (Hsize t1). rewrite H2 in Hsize. exact Hsize.
  - intros Hindep. unfold first_resize_discarded.
    rewrite (get_after_two s n1 n2 Hmu H1 H2).
    symmetry. apply get_after_one; [exact Hmu|].
    rewrite (Hindep (inactive s) t1). exact H2.
Qed.

Lemma two_resizes_then_get_witness :
  get_after [8; 2]%N clearing_slot = Some [0; 0]%Z /\
  size_of [0; 0]%Z = 2%N /\
  first_resize_discarded clearing_slot 8%N 2%N.
Proof.
  destruct (@two_resizes_then_get samples cpp_exception clearing_slot
              8%N 2%N (vector_resize [] 8%N) [0; 0]%Z)
    as [Hget [Hsize Hdisc]]; [reflexivity | reflexivity | reflexivity |].
  split; [exact Hget|]. split.
  - apply (Hsize size_of). intros t. reflexivity.
  - apply Hdisc. intros t t'. reflexivity.
Defined.

(** C9: the second of two [resize_and_clear] calls in a row gives the
    stored function the object the first call left in the inactive slot;
    nothing resets that slot in between, so the next [get] returns the
    function applied twice.  The outcome is that of a lone second call when
    the function's result depends on the requested size only, and it need
    not be otherwise: [v.resize(n)] is a function that shows the
    difference. *)
Theorem second_resize_works_on_first_result :
  (forall (T E : Type) (s : AtomicResizable T E) (n1 n2 : size_t) (t1 t2 : T),
      resize_mutex s = false ->
      resize_and_clear_fn s (inactive s) n1 = (t1, Normal) ->
      resize_and_clear_fn s t1 n2 = (t2, Normal) ->
      exists s1 s2,
        resize_and_clear n1 s = Returned tt s1 /\
        inactive s1 = t1 /\
        resize_and_clear n2 s1 = Returned tt s2 /\
        inactive s2 = fst (resize_and_clear_fn s (inactive s1) n2) /\
        get s2
        = Returned
            (fst (resize_and_clear_fn s
                    (fst (resize_and_clear_fn s (inactive s) n1)) n2))
            (swapped s2) /\
        ((forall t, resize_and_clear_fn s t n2
                    = resize_and_clear_fn s (inactive s) n2) ->
         get_after [n1; n2] s = get_after [n2] s)) /\
  get_after [2; 4]%N keeping_slot <> get_after [4]%N keeping_slot.
Proof.
  split.
  - intros T E s n1 n2 t1 t2 Hmu H1 H2.
    exists (resized true t1 s), (resized true t2 s).
    rewrite (resize_and_clear_returns s n1 Hmu H1).
    rewrite (resize_and_clear_returns (resized true t1 s) n2 (t:=t2))
      by (reflexivity || exact H2).
    rewrite get_pending by reflexivity.
    rewrite H1. cbn [fst inactive resized]. rewrite H2.
    repeat split.
    intros Hindep.
    rewrite (get_after_two s n1 n2 Hmu H1 H2).
    symmetry. apply get_after_one; [exact Hmu|].
    rewrite <- (Hindep t1). exact H2.
  - vm_compute. intros H. discriminate H.
Qed.

Lemma second_resize_works_on_first_result_witness :
  exists s1 s2,
    resize_and_clear 2%N keeping_slot = Returned tt s1 /\
    inactive s1 = [7; 7]%Z /\
    resize_and_clear 4%N s1 = Returned tt s2 /\
    inactive s2 = [7; 7; 0; 0]%Z /\
    get s2 = Returned [7; 7; 0; 0]%Z (swapped s2).
Proof.
  destruct second_resize_works_on_first_result as [Hgen _].
  destruct (Hgen samples cpp_exception keeping_slot 2%N 4%N
              [7; 7]%Z [7; 7; 0; 0]%Z)
    as (s1 & s2 & Hr1 & Hi1 & Hr2 & Hi2 & Hget & _);
    [reflexivity | reflexivity | reflexivity |].
  exists s1, s2. rewrite Hi1 in Hi2.
  split; [exact Hr1|]. split; [exact Hi1|]. split; [exact Hr2|].
  split; [exact Hi2|]. exact Hget.
Defined.

(** ** The general statements at work on the sample objects *)

Lemma get_keeps_contents_witness :
  needs_swap clearing_slot = false /\
  get_times 3 clearing_slot
  = Returned [[7; 7; 7; 7]; [7; 7; 7; 7]; [7; 7; 7; 7]]%Z clearing_slot.
Proof.
  split; [reflexivity|].
  destruct (@get_keeps_contents samples cpp_exception clearing_slot)
    as [_ Hrep].
  exact (Hrep eq_refl 3).
Defined.

Lemma resize_then_get_witness :
  exists s',
    resize_and_clear 16%N clearing_slot = Returned tt s' /\
    needs_swap s' = true /\
    get s' = Returned (repeat 0%Z 16) (swapped s').
Proof.
  destruct (@resize_then_get samples cpp_exception clearing_slot 16%N
              (repeat 0%Z 16))
    as (s' & Hr & Hns & _ & Hget & _); [reflexivity | reflexivity |].
  exists s'. split; [exact Hr|]. split; [exact Hns | exact Hget].
Defined.

Lemma resize_failure_keeps_reader_state_witness :
  exists s',
    resize_and_clear 16%N limited_slot = Raised bad_alloc s' /\
    resize_mutex s' = false /\
    needs_swap s' = false /\
    get s' = Returned [7; 7; 7; 7]%Z s'.
Proof.
  destruct (@resize_failure_keeps_reader_state samples cpp_exception
              limited_slot 16%N [] bad_alloc)
    as (s' & Hr & Hmu & _ & Hns & Hget); [reflexivity | reflexivity |].
  exists s'. split; [exact Hr|]. split; [exact Hmu|].
  split; [exact Hns | exact Hget].
Defined.

Lemma failed_resize_cancels_pending_swap_witness :
  get limited_slot_pending
  = Returned (repeat 0%Z 8) (swapped limited_slot_pending) /\
  exists s',
    resize_and_clear 16%N limited_slot_pending = Raised bad_alloc s' /\
    needs_swap s' = false /\
    get_times 2 s' = Returned [[7; 7; 7; 7]; [7; 7; 7; 7]]%Z s'.
Proof.
  destruct (@failed_resize_cancels_pending_swap samples cpp_exception
              limited_slot_pending 16%N [] bad_alloc)
    as (Hget & s' & Hr & Hns & _ & Hrep);
    [reflexivity | reflexivity | reflexivity |].
  split; [exact Hget|].
  exists s'. split; [exact Hr|]. split; [exact Hns | exact (Hrep 2%nat)].
Defined.

(** The walk through of the specification: four samples, a [get], a resize
    to 16 and a [get], resizes to 8 and to 2 and a [get]; and a resize that
    fails for want of memory, followed by a [get]. *)
Example sizes_seen_by_the_reader :
  (a0 <- get ;;
   resize_and_clear 16%N ;;;
   a1 <- get ;;
   resize_and_clear 8%N ;;;
   resize_and_clear 2%N ;;;
   a2 <- get ;;
   ret (map size_of [a0; a1; a2])) clearing_slot
  = Returned [4; 16; 2]%N
             (swapped (resized true [0; 0]%Z
                               (new_AtomicResizable (repeat 0%Z 16)
                                                    clear_then_resize))) /\
  (resize_and_clear 16%N ;;; get) limited_slot
  = Raised bad_alloc (resized false [] limited_slot) /\
  get (resized false [] limited_slot)
  = Returned [7; 7; 7; 7]%Z (resized false [] limited_slot).
Proof.
  repeat split.
Qed.

(** * The two threads together *)

Section MachineFacts.
Context {T E : Type}.
Variable fn_writes : size_t -> list (T -> T).

Import Interleaving.

Lemma run_app (l1 l2 : list thread) (c : config (T := T) (E := E)) :
  run fn_writes (l1 ++ l2) c = run fn_writes l2 (run fn_writes l1 c).
Proof.
  unfold run. apply fold_left_app.
Qed.

(** Inside the stored function, left alone, the control thread makes the
    remaining writes one after the other, all of them to [inactive]. *)
Lemma control_thread_in_call (l : list (T -> T)) :
  forall (fn : T -> size_t -> T * completion E) ns mu a i rd ret calls,
    run fn_writes (repeat Control (length l))
        {| obj := {| resize_and_clear_fn := fn; needs_swap := ns;
                     resize_mutex := mu; active := a; inactive := i |};
           reader := rd; returned := ret;
           writer := W_call l; pending := calls |}
    = {| obj := {| resize_and_clear_fn := fn; needs_swap := ns;
                   resize_mutex := mu; active := a;
                   inactive := fold_left (fun x w => w x) l i |};
         reader := rd; returned := ret;
         writer := W_call []; pending := calls |}.
Proof.
  induction l as [|w l IH]; intros fn ns mu a i rd ret calls.
  - reflexivity.
  - cbn [length repeat]. unfold run. cbn [fold_left].
    exact (IH fn ns mu a (w i) rd ret calls).
Qed.

(** A whole [resize_and_clear(n)] of the control thread with the audio
    thread standing still is the call of the first part. *)
Lemma control_thread_alone ns a i rd ret n calls :
  let o := {| resize_and_clear_fn := fn_of_writes (E := E) fn_writes;
              needs_swap := ns; resize_mutex := false;
              active := a; inactive := i |} in
  exists o',
    resize_and_clear n o = Returned tt o' /\
    run fn_writes
        ([Control; Control] ++ repeat Control (length (fn_writes n))
                            ++ [Control; Control; Control])
        {| obj := o; reader := rd; returned := ret;
           writer := W_lock; pending := n :: calls |}
    = {| obj := o'; reader := rd; returned := ret;
         writer := W_lock; pending := calls |}.
Proof.
  intros o.
  exists (resized true (fold_left (fun x w => w x) (fn_writes n) i) o).
  split.
  - apply resize_and_clear_returns; reflexivity.
  - rewrite run_app. unfold run at 2. cbn [fold_left].
    rewrite run_app.
    change (step fn_writes Control
              (step fn_writes Control
                    {| obj := o; reader := rd; returned := ret;
                       writer := W_lock; pending := n :: calls |}))
      with {| obj := {| resize_and_clear_fn := fn_of_writes (E := E) fn_writes;
                        needs_swap := false; resize_mutex := true;
                        active := a; inactive := i |};
              reader := rd; returned := ret;
              writer := W_call (fn_writes n); pending := calls |}.
    rewrite control_thread_in_call. reflexivity.
Qed.

(** A whole [get] of the audio thread with the control thread standing
    still is the call of the first part. *)
Lemma audio_thread_alone (c : config (T := T) (E := E)) :
  reader c = R_exchange ->
  exists a o',
    get (obj c) = Returned a o' /\
    run fn_writes (repeat Audio (if needs_swap (obj c) then 3 else 2)) c
    = {| obj := o'; reader := R_exchange; returned := returned c ++ [a];
         writer := writer c; pending := pending c |}.
Proof.
  destruct c as [[fn ns mu a i] rd ret wr calls]. cbn. intros ->.
  destruct ns.
  - exists i. eexists. split; reflexivity.
  - exists a. eexists. split; reflexivity.
Qed.

End MachineFacts.

(** When no step of the control thread falls between the exchange and the
    return of a [get], and the stored function gives its argument the size
    it is asked for, the audio thread gets objects of the initial or of a
    requested size only. *)
Section UninterruptedGet.
Context {T E : Type}.
Variable fn_writes : size_t -> list (T -> T).
Variable size : T -> size_t.
Variable initial : T.
Variable calls : list size_t.

Hypothesis fn_sizes :
  forall n t, size (fold_left (fun x w => w x) (fn_writes n) t) = n.

Import Interleaving.

Ltac settle :=
  repeat match goal with
         | |- _ /\ _ => split
         | |- True => exact I
         | |- Forall _ (_ ++ [_]) =>
             apply Forall_app; split; [|constructor; [|constructor]]
         | |- false = true -> _ =>
             let Hd := fresh in intros Hd; discriminate Hd
         | |- true = true -> _ => intros _
         | H : true = false /\ _ |- _ =>
             let Hd := fresh in destruct H as [Hd _]; discriminate Hd
         | H : _ /\ _ |- _ => destruct H
         | H : true = true -> _ |- _ => specialize (H eq_refl)
         | |- _ => assumption
         | |- _ => reflexivity
         end.

Lemma between_gets_start :
  between_gets size initial calls (start (E := E) fn_writes initial calls).
Proof.
  unfold between_gets, requested_size; cbn.
  repeat split; auto using incl_refl.
Qed.

Lemma between_gets_turn (c : config (T := T) (E := E)) (t : turn) :
  between_gets size initial calls c ->
  between_gets size initial calls (run fn_writes (turn_schedule c t) c).
Proof.
  destruct c as [[fn ns mu a i] rd ret wr pend].
  unfold between_gets; cbn.
  intros (Hrd & Ha & Hi & Hret & Hp & Hw); subst rd.
  destruct t; cbn.
  - (* a whole [get] *)
    destruct ns; cbn.
    + destruct wr as [|n|rest| |]; settle.
    + settle.
  - (* one step of the control thread *)
    destruct wr as [|n|[|w rest]| |]; cbn.
    + destruct pend as [|n pend']; cbn; [settle|].
      destruct mu; cbn; settle.
      * intros m Hm. apply Hp. right. exact Hm.
      * apply Hp. left. reflexivity.
    + settle. rewrite fn_sizes. exact Hw.
    + settle.
    + destruct Hw as [-> Hw]. settle.
    + settle. right. assumption.
    + settle.
Qed.

Lemma uninterrupted_get_sees_requested_sizes (turns : list turn) :
  Forall (requested_size size initial calls)
         (returned (run_turns fn_writes turns
                              (start (E := E) fn_writes initial calls))).
Proof.
  assert (Hinv : between_gets size initial calls
                   (run_turns fn_writes turns
                              (start (E := E) fn_writes initial calls))).
  { unfold run_turns.
    generalize (start (E := E) fn_writes initial calls) between_gets_start.
    induction turns as [|t turns IH]; intros c Hc; cbn [fold_left].
    - exact Hc.
    - apply IH. apply between_gets_turn. exact Hc. }
  destruct Hinv as (_ & _ & _ & Hret & _). exact Hret.
Qed.

End UninterruptedGet.

(** [v.clear(); v.resize(n);] gives the vector the size it is asked for, so
    on the sample machine every schedule of whole [get]s shows the audio
    thread sizes 4, 8 and 2 only. *)
Lemma clear_then_resize_sizes (n : size_t) (v : samples) :
  size_of (fold_left (fun x w => w x)
                     (Interleaving.clear_then_resize_writes n) v) = n.
Proof.
  cbn. unfold size_of, vector_resize.
  rewrite firstn_nil. cbn [app length].
  rewrite repeat_length, Nat.sub_0_r. apply N2Nat.id.
Qed.

Lemma sample_machine_whole_gets (turns : list Interleaving.turn) :
  Forall (Interleaving.requested_size size_of [7; 7; 7; 7]%Z [8; 2]%N)
         (Interleaving.returned
            (Interleaving.run_turns Interleaving.clear_then_resize_writes
                                    turns Interleaving.racy_start)).
Proof.
  apply (uninterrupted_get_sees_requested_sizes
           (E := cpp_exception) Interleaving.clear_then_resize_writes
           size_of [7; 7; 7; 7]%Z [8; 2]%N clear_then_resize_sizes).
Qed.

(** C4: the audio thread can get an object in the state the stored function
    had it in halfway through.  Four samples to start with and
    [v.clear(); v.resize(n);] as the stored function; the control thread
    completes [resize_and_clear(8)]; the audio thread enters [get] and its
    exchange succeeds; before it reaches [std::swap] the control thread
    enters [resize_and_clear(2)], stores [false] to the flag that is false
    already and clears the vector; the audio thread now swaps and returns
    the empty vector, of size 0, which is neither the size it had before
    (4) nor one of a completed resize (8, 2). *)
Theorem audio_thread_gets_half_resized_object :
  Interleaving.returned
    (Interleaving.run Interleaving.clear_then_resize_writes
                      Interleaving.racy_schedule Interleaving.racy_start)
  = [[]] /\
  size_of [] = 0%N /\
  ~ Interleaving.only_requested_sizes (E := cpp_exception)
      Interleaving.clear_then_resize_writes size_of
      [7; 7; 7; 7]%Z [8; 2]%N.
Proof.
  split; [reflexivity|]. split; [reflexivity|].
  intros H. specialize (H Interleaving.racy_schedule).
  change (Forall (Interleaving.requested_size
                    size_of [7; 7; 7; 7]%Z [8; 2]%N) [[]]) in H.
  inversion H as [|x l Hx _]; subst.
  destruct Hx as [Hx | [Hx | [Hx | []]]]; discriminate Hx.
Qed.

(** * Further properties of one call at a time *)

Section MoreMemberFacts.
Context {T E : Type}.
Implicit Types (s : AtomicResizable T E) (n : size_t).

(** A constructed object hands out [initial] for as long as nothing is
    resized, without changing; the first [resize_and_clear(n)] that returns
    is computed from the copy of [initial] in the inactive slot, and the
    [get] after it leaves the other copy of [initial] there. *)
Theorem constructed_object_serves_initial
        (initial : T) (fn : T -> size_t -> T * completion E) n (t : T) :
  fn initial n = (t, Normal) ->
  (forall k,
      get_times k (new_AtomicResizable initial fn)
      = Returned (repeat initial k) (new_AtomicResizable initial fn)) /\
  (resize_and_clear n ;;; get) (new_AtomicResizable initial fn)
  = Returned t {| resize_and_clear_fn := fn;
                  needs_swap := false;
                  resize_mutex := false;
                  active := t;
                  inactive := initial |}.
Proof.
  intros Hfn. split.
  - intros k.
    apply (get_times_stable (new_AtomicResizable initial fn)). reflexivity.
  - unfold bind.
    rewrite (resize_and_clear_returns (new_AtomicResizable initial fn) n
                                      (t := t)) by (reflexivity || exact Hfn).
    rewrite get_pending by reflexivity. reflexivity.
Qed.

(** Whatever the flag was, what one [get] returned is what every [get]
    after it returns, until the next [resize_and_clear]; none of them
    changes the object any more. *)
Theorem get_settles s :
  exists a s',
    get s = Returned a s' /\
    forall k, get_times k s' = Returned (repeat a k) s'.
Proof.
  destruct (needs_swap s) eqn:Hns.
  - exists (inactive s), (swapped s). rewrite (get_pending s Hns).
    split; [reflexivity|]. intros k.
    apply (get_times_stable (swapped s)). reflexivity.
  - exists (active s), s. rewrite (get_stable s Hns).
    split; [reflexivity|]. intros k.
    apply (get_times_stable s). exact Hns.
Qed.

(** The two slots take turns.  When a [get] comes between two
    [resize_and_clear] calls, the second call does not start from the
    result of the first: it resizes the object the reader had before, and
    the first result ends up in the inactive slot. *)
Theorem resizes_alternate_between_slots s n1 n2 (t1 t2 : T) :
  resize_mutex s = false ->
  resize_and_clear_fn s (inactive s) n1 = (t1, Normal) ->
  resize_and_clear_fn s (active s) n2 = (t2, Normal) ->
  (resize_and_clear n1 ;;;
   a1 <- get ;;
   resize_and_clear n2 ;;;
   a2 <- get ;;
   ret (a1, a2)) s
  = Returned (t1, t2)
             {| resize_and_clear_fn := resize_and_clear_fn s;
                needs_swap := false;
                resize_mutex := false;
                active := t2;
                inactive := t1 |}.
Proof.
  intros Hmu H1 H2. unfold bind at 1.
  rewrite (resize_and_clear_returns s n1 Hmu H1).
  unfold bind at 1. rewrite get_pending by reflexivity.
  unfold bind at 1.
  rewrite (resize_and_clear_returns (swapped (resized true t1 s)) n2
                                    (t := t2)) by (reflexivity || exact H2).
  unfold bind at 1. rewrite get_pending by reflexivity.
  reflexivity.
Qed.

(** After a [resize_and_clear] that threw, the next one is given the object
    as the failed call left it, and, when it returns, publishes its result
    as usual; the reader's previous object moves to the inactive slot. *)
Theorem resize_after_failure_publishes s n m (t t' : T) (e : E) :
  resize_mutex s = false ->
  resize_and_clear_fn s (inactive s) n = (t, Throws e) ->
  resize_and_clear_fn s t m = (t', Normal) ->
  exists s1,
    resize_and_clear n s = Raised e s1 /\
    inactive s1 = t /\
    (resize_and_clear m ;;; get) s1
    = Returned t' {| resize_and_clear_fn := resize_and_clear_fn s;
                     needs_swap := false;
                     resize_mutex := false;
                     active := t';
                     inactive := active s |}.
Proof.
  intros Hmu H1 H2. exists (resized false t s).
  rewrite (resize_and_clear_throws s n Hmu H1).
  split; [reflexivity|]. split; [reflexivity|].
  unfold bind.
  rewrite (resize_and_clear_returns (resized false t s) m (t := t'))
    by (reflexivity || exact H2).
  rewrite get_pending by reflexivity. reflexivity.
Qed.

Lemma after_call_keeps_mutex_free (c : call) s :
  resize_mutex s = false ->
  exists s',
    after_call c s = Some s' /\
    resize_mutex s' = false /\
    resize_and_clear_fn s' = resize_and_clear_fn s.
Proof.
  intros Hmu. destruct c as [|n]; unfold after_call.
  - destruct (needs_swap s) eqn:Hns.
    + rewrite (get_pending s Hns). exists (swapped s). repeat split.
      exact Hmu.
    + rewrite (get_stable s Hns). exists s. repeat split. exact Hmu.
  - destruct (resize_and_clear_fn s (inactive s) n) as [t [|e]] eqn:Hfn.
    + rewrite (resize_and_clear_returns s n Hmu Hfn).
      exists (resized true t s). repeat split.
    + rewrite (resize_and_clear_throws s n Hmu Hfn).
      exists (resized false t s). repeat split.
Qed.

(** Calls made one after the other never wait: whatever they are and
    however each [resize_and_clear] among them ends, every call finds the
    mutex free, and the object ends with the mutex free and the stored
    function it was constructed with. *)
Theorem calls_in_a_row_never_wait (cs : list call) s :
  resize_mutex s = false ->
  exists s',
    after_calls cs s = Some s' /\
    resize_mutex s' = false /\
    resize_and_clear_fn s' = resize_and_clear_fn s.
Proof.
  revert s. induction cs as [|c cs IH]; intros s Hmu.
  - exists s. repeat split. exact Hmu.
  - destruct (after_call_keeps_mutex_free c s Hmu) as (s1 & Hc & Hmu1 & Hfn1).
    destruct (IH s1 Hmu1) as (s' & Hcs & Hmu' & Hfn').
    exists s'. cbn [after_calls]. rewrite Hc.
    split; [exact Hcs|]. split; [exact Hmu'|].
    rewrite Hfn'. exact Hfn1.
Qed.

End MoreMemberFacts.

Lemma constructed_object_serves_initial_witness :
  get_times 2 clearing_slot
  = Returned [[7; 7; 7; 7]; [7; 7; 7; 7]]%Z clearing_slot /\
  (resize_and_clear 2%N ;;; get) clearing_slot
  = Returned [0; 0]%Z
             {| resize_and_clear_fn := clear_then_resize;
                needs_swap := false;
                resize_mutex := false;
                active := [0; 0]%Z;
                inactive := [7; 7; 7; 7]%Z |}.
Proof.
  destruct (@constructed_object_serves_initial samples cpp_exception
              [7; 7; 7; 7]%Z clear_then_resize 2%N [0; 0]%Z eq_refl)
    as [Hgets Hfirst].
  split; [exact (Hgets 2%nat) | exact Hfirst].
Defined.

Lemma resizes_alternate_between_slots_witness :
  (resize_and_clear 2%N ;;;
   a1 <- get ;;
   resize_and_clear 6%N ;;;
   a2 <- get ;;
   ret (a1, a2)) keeping_slot
  = Returned ([7; 7]%Z, [7; 7; 7; 7; 0; 0]%Z)
             {| resize_and_clear_fn := resize_only;
                needs_swap := false;
                resize_mutex := false;
                active := [7; 7; 7; 7; 0; 0]%Z;
                inactive := [7; 7]%Z |}.
Proof.
  exact (@resizes_alternate_between_slots samples cpp_exception
           keeping_slot 2%N 6%N [7; 7]%Z [7; 7; 7; 7; 0; 0]%Z
           eq_refl eq_refl eq_refl).
Defined.

Lemma resize_after_failure_publishes_witness :
  exists s1,
    resize_and_clear 16%N limited_slot = Raised bad_alloc s1 /\
    inactive s1 = [] /\
    (resize_and_clear 2%N ;;; get) s1
    = Returned [0; 0]%Z
               {| resize_and_clear_fn := clear_then_resize_limited 8%N;
                  needs_swap := false;
                  resize_mutex := false;
                  active := [0; 0]%Z;
                  inactive := [7; 7; 7; 7]%Z |}.
Proof.
  exact (@resize_after_failure_publishes samples cpp_exception
           limited_slot 16%N 2%N [] [0; 0]%Z bad_alloc
           eq_refl eq_refl eq_refl).
Defined.

Lemma calls_in_a_row_never_wait_witness :
  exists s',
    after_calls [Call_resize_and_clear 16%N; Call_get;
                 Call_resize_and_clear 4%N; Call_resize_and_clear 32%N;
                 Call_get] limited_slot = Some s' /\
    resize_mutex s' = false /\
    resize_and_clear_fn s' = clear_then_resize_limited 8%N.
Proof.
  exact (@calls_in_a_row_never_wait samples cpp_exception
           [Call_resize_and_clear 16%N; Call_get;
            Call_resize_and_clear 4%N; Call_resize_and_clear 32%N;
            Call_get] limited_slot eq_refl).
Defined.

(** * Further properties of the two threads together *)

Section MoreMachineFacts.
Context {T E : Type}.
Variable fn_writes : size_t -> list (T -> T).

Import Interleaving.

Lemma run_cons (t : thread) (l : list thread)
      (c : config (T := T) (E := E)) :
  run fn_writes (t :: l) c = run fn_writes l (step fn_writes t c).
Proof.
  reflexivity.
Qed.

Lemma reader_step_progress (c : config (T := T) (E := E)) :
  S (reader_progress c) <= reader_progress (reader_step c).
Proof.
  destruct c as [[fn ns mu a i] rd ret wr pend].
  unfold reader_progress, reader_step; cbn.
  destruct rd; cbn.
  - destruct ns; cbn; lia.
  - lia.
  - rewrite length_app. cbn. lia.
Qed.

Lemma writer_step_reader_progress (c : config (T := T) (E := E)) :
  reader_progress (writer_step fn_writes c) = reader_progress c.
Proof.
  destruct c as [[fn ns mu a i] rd ret wr pend].
  unfold reader_progress, writer_step; cbn.
  destruct wr as [|n|[|w rest]| |]; cbn; try reflexivity.
  destruct pend as [|n pend']; cbn; [reflexivity|].
  destruct mu; reflexivity.
Qed.

(** [get] is wait-free.  Every step of the audio thread brings it forward,
    whatever the control thread does in between: a [get] is over after at
    most three steps of its own, so of any schedule all audio steps but at
    most two belong to calls that have returned. *)
Theorem get_is_wait_free (schedule : list thread)
        (c : config (T := T) (E := E)) :
  reader_progress c + audio_steps schedule
  <= reader_progress (run fn_writes schedule c) /\
  forall initial calls,
    audio_steps schedule
    <= 3 * length (returned (run fn_writes schedule
                                 (start (E := E) fn_writes initial calls)))
       + 2.
Proof.
  assert (Hgen : forall sched (c0 : config (T := T) (E := E)),
             reader_progress c0 + audio_steps sched
             <= reader_progress (run fn_writes sched c0)).
  { induction sched as [|t sched IH]; intros c0.
    - cbn. lia.
    - rewrite run_cons. specialize (IH (step fn_writes t c0)).
      destruct t; unfold audio_steps in *; cbn [filter is_audio length step]
        in *.
      + pose proof (reader_step_progress c0). lia.
      + rewrite writer_step_reader_progress in IH. lia. }
  split.
  - apply Hgen.
  - intros initial calls.
    specialize (Hgen schedule (start (E := E) fn_writes initial calls)).
    unfold reader_progress in Hgen at 2.
    destruct (reader (run fn_writes schedule
                          (start (E := E) fn_writes initial calls)));
      cbn in Hgen; lia.
Qed.

End MoreMachineFacts.

Section ControlThreadFacts.
Context {T E : Type}.
Variable fn_writes : size_t -> list (T -> T).

Import Interleaving.

Lemma call_steps_positive (calls : list size_t) :
  list_sum (map (call_steps fn_writes) calls) = 0 -> calls = [].
Proof.
  destruct calls as [|n calls]; [reflexivity|].
  cbn. unfold call_steps. lia.
Qed.

Lemma reader_step_control_side (c : config (T := T) (E := E)) :
  resize_mutex (obj (reader_step c)) = resize_mutex (obj c) /\
  writer (reader_step c) = writer c /\
  pending (reader_step c) = pending c.
Proof.
  destruct c as [[fn ns mu a i] rd ret wr pend].
  unfold reader_step; cbn. destruct rd; cbn; [destruct ns|..]; cbn; auto.
Qed.

Lemma writer_step_remaining (c : config (T := T) (E := E)) :
  resize_mutex (obj c) = writer_holds_mutex (writer c) ->
  resize_mutex (obj (writer_step fn_writes c))
  = writer_holds_mutex (writer (writer_step fn_writes c)) /\
  writer_remaining fn_writes (writer_step fn_writes c)
  = writer_remaining fn_writes c - 1.
Proof.
  destruct c as [[fn ns mu a i] rd ret wr pend].
  unfold writer_remaining, writer_step; cbn.
  destruct wr as [|n|[|w rest]| |]; cbn; intros Hmu.
  - subst mu. destruct pend as [|n pend']; cbn.
    + split; reflexivity.
    + split; [reflexivity|]. unfold call_steps. lia.
  - split; [exact Hmu | lia].
  - split; [exact Hmu | lia].
  - split; [exact Hmu | lia].
  - split; [exact Hmu | lia].
  - split; [reflexivity | lia].
Qed.

Lemma run_remaining (schedule : list thread) :
  forall c : config (T := T) (E := E),
    resize_mutex (obj c) = writer_holds_mutex (writer c) ->
    resize_mutex (obj (run fn_writes schedule c))
    = writer_holds_mutex (writer (run fn_writes schedule c)) /\
    writer_remaining fn_writes (run fn_writes schedule c)
    = writer_remaining fn_writes c - control_steps schedule.
Proof.
  induction schedule as [|t schedule IH]; intros c Hc.
  - cbn. split; [exact Hc | lia].
  - rewrite run_cons. destruct t; cbn [step].
    + destruct (reader_step_control_side c) as (Hm & Hw & Hp).
      destruct (IH (reader_step c)) as [Hinv Hrem].
      { rewrite Hm, Hw. exact Hc. }
      split; [exact Hinv|]. rewrite Hrem.
      unfold writer_remaining. rewrite Hw, Hp. reflexivity.
    + destruct (writer_step_remaining c Hc) as [Hc' Hone].
      destruct (IH (writer_step fn_writes c) Hc') as [Hinv Hrem].
      split; [exact Hinv|]. rewrite Hrem, Hone.
      unfold control_steps. cbn [filter is_audio negb length]. lia.
Qed.

(** [resize_and_clear] never waits for the audio thread.  From
    construction on, under every schedule, the mutex is held exactly while
    the control thread is inside a call, and each step of the control
    thread is a step of its work: what it has left to do is what it had,
    less the steps it was given. *)
Theorem control_thread_progress (schedule : list thread)
        (initial : T) (calls : list size_t) :
  resize_mutex (obj (run fn_writes schedule
                         (start (E := E) fn_writes initial calls)))
  = writer_holds_mutex
      (writer (run fn_writes schedule
                   (start (E := E) fn_writes initial calls))) /\
  writer_remaining fn_writes
    (run fn_writes schedule (start (E := E) fn_writes initial calls))
  = list_sum (map (call_steps fn_writes) calls) - control_steps schedule.
Proof.
  destruct (run_remaining schedule
              (start (E := E) fn_writes initial calls) eq_refl)
    as [Hinv Hrem].
  split; [exact Hinv|]. rewrite Hrem. reflexivity.
Qed.

(** Once the control thread has been given as many steps as its calls
    take, all of them have returned, with the mutex released, wherever the
    audio thread's steps fell. *)
Theorem control_thread_finishes (schedule : list thread)
        (initial : T) (calls : list size_t) :
  list_sum (map (call_steps fn_writes) calls) <= control_steps schedule ->
  writer (run fn_writes schedule (start (E := E) fn_writes initial calls))
  = W_lock /\
  pending (run fn_writes schedule (start (E := E) fn_writes initial calls))
  = [] /\
  resize_mutex
    (obj (run fn_writes schedule (start (E := E) fn_writes initial calls)))
  = false.
Proof.
  intros Hsteps.
  destruct (run_remaining schedule
              (start (E := E) fn_writes initial calls) eq_refl)
    as [Hinv Hrem].
  change (writer_remaining fn_writes
            (start (E := E) fn_writes initial calls))
    with (0 + list_sum (map (call_steps fn_writes) calls)) in Hrem.
  set (c := run fn_writes schedule
                (start (E := E) fn_writes initial calls)) in *.
  unfold writer_remaining in Hrem.
  destruct (writer c) eqn:Hw; try lia.
  split; [reflexivity|]. split.
  - apply call_steps_positive. lia.
  - rewrite Hinv. reflexivity.
Qed.

(** The control thread writes to the flag and to the two objects only
    while it holds the mutex: in a state reached from construction with the
    mutex free, its next step leaves all three as they are. *)
Theorem control_thread_writes_under_mutex (schedule : list thread)
        (initial : T) (calls : list size_t) :
  resize_mutex
    (obj (run fn_writes schedule (start (E := E) fn_writes initial calls)))
  = false ->
  needs_swap
    (obj (writer_step fn_writes
            (run fn_writes schedule
                 (start (E := E) fn_writes initial calls))))
  = needs_swap
      (obj (run fn_writes schedule
                (start (E := E) fn_writes initial calls))) /\
  active
    (obj (writer_step fn_writes
            (run fn_writes schedule
                 (start (E := E) fn_writes initial calls))))
  = active
      (obj (run fn_writes schedule
                (start (E := E) fn_writes initial calls))) /\
  inactive
    (obj (writer_step fn_writes
            (run fn_writes schedule
                 (start (E := E) fn_writes initial calls))))
  = inactive
      (obj (run fn_writes schedule
                (start (E := E) fn_writes initial calls))).
Proof.
  destruct (run_remaining schedule
              (start (E := E) fn_writes initial calls) eq_refl)
    as [Hinv _].
  set (c := run fn_writes schedule
                (start (E := E) fn_writes initial calls)) in *.
  intros Hfree. rewrite Hfree in Hinv.
  unfold writer_step.
  destruct (writer c) eqn:Hw; try discriminate Hinv.
  destruct (pending c) as [|n pend']; [repeat split|].
  rewrite Hfree. repeat split.
Qed.

Lemma control_thread_call (fn : T -> size_t -> T * completion E)
      ns a i rd ret n calls :
  run fn_writes (repeat Control (call_steps fn_writes n))
      {| obj := {| resize_and_clear_fn := fn; needs_swap := ns;
                   resize_mutex := false; active := a; inactive := i |};
         reader := rd; returned := ret;
         writer := W_lock; pending := n :: calls |}
  = {| obj := {| resize_and_clear_fn := fn; needs_swap := true;
                 resize_mutex := false; active := a;
                 inactive := fn_result fn_writes n i |};
       reader := rd; returned := ret;
       writer := W_lock; pending := calls |}.
Proof.
  unfold call_steps.
  replace (length (fn_writes n) + 5) with (2 + (length (fn_writes n) + 3))
    by lia.
  rewrite (repeat_app Control 2), (repeat_app Control (length (fn_writes n))).
  rewrite !run_app.
  change (run fn_writes (repeat Control 2)
              {| obj := {| resize_and_clear_fn := fn; needs_swap := ns;
                           resize_mutex := false; active := a;
                           inactive := i |};
                 reader := rd; returned := ret;
                 writer := W_lock; pending := n :: calls |})
    with {| obj := {| resize_and_clear_fn := fn; needs_swap := false;
                      resize_mutex := true; active := a; inactive := i |};
            reader := rd; returned := ret;
            writer := W_call (fn_writes n); pending := calls |}.
  rewrite control_thread_in_call. reflexivity.
Qed.

(** A [get] overtaken by a whole [resize_and_clear].  The audio thread wins
    its exchange after a first resize; before it swaps, the control thread
    makes a complete second resize and sets the flag again.  The [get]
    then returns the result of both resizes, but its swap has put the
    reader's old object in the inactive slot with the flag still set: the
    next [get] swaps once more and hands the old, unresized object back,
    and the resized one stays out of sight until another resize. *)
Theorem get_overtaken_by_resize (initial : T) (n1 n2 : size_t) :
  run fn_writes (overtaken_schedule fn_writes n1 n2)
      (start (E := E) fn_writes initial [n1; n2])
  = {| obj := {| resize_and_clear_fn := fn_of_writes fn_writes;
                 needs_swap := false;
                 resize_mutex := false;
                 active := initial;
                 inactive :=
                   fn_result fn_writes n2 (fn_result fn_writes n1 initial) |};
       reader := R_exchange;
       returned :=
         [fn_result fn_writes n2 (fn_result fn_writes n1 initial); initial];
       writer := W_lock;
       pending := [] |}.
Proof.
  unfold overtaken_schedule, start, new_AtomicResizable.
  rewrite run_app, control_thread_call.
  rewrite run_app.
  change (run fn_writes [Audio] ?c)
    with (step fn_writes Audio c).
  cbn [step reader_step reader obj needs_swap
       resize_and_clear_fn resize_mutex active inactive returned writer
       pending].
  unfold set_needs_swap.
  cbn [needs_swap resize_and_clear_fn resize_mutex active inactive].
  rewrite run_app, control_thread_call.
  reflexivity.
Qed.

End ControlThreadFacts.

Lemma control_thread_finishes_witness :
  Interleaving.writer
    (Interleaving.run Interleaving.clear_then_resize_writes
       (repeat Interleaving.Control 7 ++ [Interleaving.Audio]
        ++ repeat Interleaving.Control 7
        ++ [Interleaving.Audio; Interleaving.Audio])
       Interleaving.racy_start)
  = Interleaving.W_lock /\
  Interleaving.pending
    (Interleaving.run Interleaving.clear_then_resize_writes
       (repeat Interleaving.Control 7 ++ [Interleaving.Audio]
        ++ repeat Interleaving.Control 7
        ++ [Interleaving.Audio; Interleaving.Audio])
       Interleaving.racy_start)
  = [] /\
  resize_mutex
    (Interleaving.obj
       (Interleaving.run Interleaving.clear_then_resize_writes
          (repeat Interleaving.Control 7 ++ [Interleaving.Audio]
           ++ repeat Interleaving.Control 7
           ++ [Interleaving.Audio; Interleaving.Audio])
          Interleaving.racy_start))
  = false.
Proof.
  apply (@control_thread_finishes samples cpp_exception
           Interleaving.clear_then_resize_writes
           (repeat Interleaving.Control 7 ++ [Interleaving.Audio]
            ++ repeat Interleaving.Control 7
            ++ [Interleaving.Audio; Interleaving.Audio])
           [7; 7; 7; 7]%Z [8; 2]%N).
  vm_compute. lia.
Defined.

Lemma control_thread_writes_under_mutex_witness :
  inactive
    (Interleaving.obj
       (Interleaving.writer_step Interleaving.clear_then_resize_writes
          (Interleaving.run Interleaving.clear_then_resize_writes
             (repeat Interleaving.Control 7 ++ [Interleaving.Audio])
             Interleaving.racy_start)))
  = [0; 0; 0; 0; 0; 0; 0; 0]%Z.
Proof.
  destruct (@control_thread_writes_under_mutex samples cpp_exception
              Interleaving.clear_then_resize_writes
              (repeat Interleaving.Control 7 ++ [Interleaving.Audio])
              [7; 7; 7; 7]%Z [8; 2]%N eq_refl)
    as (_ & _ & Hinactive).
  exact Hinactive.
Defined.

(** When the control thread never steps between the exchange and the return
    of a [get], and the stored function gives its argument the size it is
    asked for, then under every such schedule each object a [get] returned,
    and the object in [active] at the end, has the size the slot was
    constructed with or a size some [resize_and_clear] asked for; and the
    flag is never up while the control thread is inside the stored
    function. *)
Theorem whole_gets_see_requested_sizes
        {T E : Type} (fn_writes : size_t -> list (T -> T))
        (size : T -> size_t) (initial : T) (calls : list size_t)
        (turns : list Interleaving.turn) :
  (forall n t, size (fn_result fn_writes n t) = n) ->
  Forall (Interleaving.requested_size size initial calls)
         (Interleaving.returned
            (Interleaving.run_turns fn_writes turns
               (Interleaving.start (E := E) fn_writes initial calls))) /\
  Interleaving.requested_size size initial calls
    (active
       (Interleaving.obj
          (Interleaving.run_turns fn_writes turns
             (Interleaving.start (E := E) fn_writes initial calls)))) /\
  (forall rest,
      Interleaving.writer
        (Interleaving.run_turns fn_writes turns
           (Interleaving.start (E := E) fn_writes initial calls))
      = Interleaving.W_call rest ->
      needs_swap
        (Interleaving.obj
           (Interleaving.run_turns fn_writes turns
              (Interleaving.start (E := E) fn_writes initial calls)))
      = false).
Proof.
  intros Hsizes.
  assert (Hinv : Interleaving.between_gets size initial calls
                   (Interleaving.run_turns fn_writes turns
                      (Interleaving.start (E := E) fn_writes initial calls))).
  { unfold Interleaving.run_turns.
    generalize (Interleaving.start (E := E) fn_writes initial calls)
               (between_gets_start (E := E) fn_writes size initial calls).
    induction turns as [|t turns IH]; intros c Hc; cbn [fold_left].
    - exact Hc.
    - apply IH. apply between_gets_turn; [exact Hsizes | exact Hc]. }
  destruct Hinv as (_ & Hactive & _ & Hret & _ & Hwriter).
  split; [exact Hret|]. split; [exact Hactive|].
  intros rest Hw. rewrite Hw in Hwriter. apply Hwriter.
Qed.

Lemma whole_gets_see_requested_sizes_witness :
  Forall (Interleaving.requested_size size_of [7; 7; 7; 7]%Z [8; 2]%N)
         (Interleaving.returned
            (Interleaving.run_turns Interleaving.clear_then_resize_writes
               (repeat Interleaving.Control_step 7
                ++ [Interleaving.Whole_get]
                ++ repeat Interleaving.Control_step 3
                ++ [Interleaving.Whole_get])
               Interleaving.racy_start)).
Proof.
  destruct (@whole_gets_see_requested_sizes samples cpp_exception
              Interleaving.clear_then_resize_writes size_of
              [7; 7; 7; 7]%Z [8; 2]%N
              (repeat Interleaving.Control_step 7
               ++ [Interleaving.Whole_get]
               ++ repeat Interleaving.Control_step 3
               ++ [Interleaving.Whole_get])
              clear_then_resize_sizes)
    as [Hret _].
  exact Hret.
Defined.
